(** * hot_run.py: a supervisor for two cargo children

    A shallow embedding of [hot_run.py] as a deterministic machine over the
    control points of the script.  Everything the script cannot decide by
    itself (when SIGINT arrives, whether a command can be started, what a
    child reports when polled) is read from a [world]. *)

From Stdlib Require Import ZArith String List Bool Arith Lia.
Import ListNotations.
Open Scope string_scope.
Open Scope list_scope.

(** ** Python-level values *)

(** The exceptions that can reach the top level of the script. *)
Inductive exn : Type :=
| OSError            (* subprocess cannot start the command *)
| KeyboardInterrupt  (* SIGINT under Python's default handler *)
| NameError.         (* a global read before it is bound *)

(** How the interpreter stops: [sys.exit(code)] raises SystemExit, which
    nothing catches; any other exception ends in a traceback. *)
Inductive outcome : Type :=
| SystemExit (code : Z)
| Uncaught (e : exn).

(** A [subprocess.Popen] object: the command it was built from and the
    process it stands for. *)
Record Popen : Type := mkPopen { args : list string; pid : Z }.

(** The three command lines of the script (lines 10, 13, 14). *)
Definition cargo_build : list string := ["cargo"; "build"].
Definition cargo_watch : list string :=
  ["cargo"; "watch"; "-w"; "game"; "-x"; "build -p game"].
Definition cargo_run : list string := ["cargo"; "run"].

(** ** The environment *)

Record world : Type := mkWorld {
  (** [sigint t]: a SIGINT is pending when the script is about to take its
      step number [t]. *)
  sigint : nat -> bool;
  (** [subprocess.run(cmd)]: the return code of the finished command, or
      [None] when the command cannot be started and OSError is raised. *)
  run_returns : list string -> option Z;
  (** [subprocess.Popen(cmd)]: the pid of the new child, or [None] when the
      command cannot be started and OSError is raised. *)
  popen_pid : list string -> option Z;
  (** [p.poll()] at step [t]: [None] while the child runs, its return code
      once it has finished. *)
  poll_at : nat -> Popen -> option Z
}.

(** ** What the supervisor does, as seen from outside *)

Inductive event : Type :=
| EvSignal                                   (* signal.signal(SIGINT, signal_handler) *)
| EvRun (cmd : list string)                  (* subprocess.run(cmd) *)
| EvPopen (cmd : list string) (r : option Z) (* subprocess.Popen(cmd) *)
| EvPoll (p : Popen) (r : option Z)          (* p.poll() and its answer *)
| EvTerminate (p : Popen)                    (* p.terminate() *)
| EvSigint                                   (* a SIGINT is taken *)
| EvExit (code : Z).                         (* sys.exit(code) *)

(** ** Control points of the script *)

Inductive pc : Type :=
| AtSignal                          (* line 8 *)
| AtBuild                           (* line 10 *)
| AtWatch                           (* line 13: first element of the list *)
| AtRun (watch : Popen)             (* line 14: second element, first one held *)
| AtPoll (i : nat)                  (* lines 18-20: outer for, iterator at i *)
| AtTerminate (j : nat) (code : Z)  (* lines 21-23: inner for, iterator at j *)
| Halted (o : outcome).

Record state : Type := mkState {
  at_ : pc;
  (** whether [signal_handler] is the disposition of SIGINT *)
  installed : bool;
  (** the global [processes]; [None] while the name is unbound *)
  processes : option (list Popen);
  trace : list event
}.

Definition init : state :=
  {| at_ := AtSignal; installed := false; processes := None; trace := [] |}.

Definition halted (s : state) : bool :=
  match at_ s with Halted _ => true | _ => false end.

(** ** Statements *)

Definition emit (es : list event) (next : pc) (s : state) : state :=
  {| at_ := next; installed := installed s;
     processes := processes s; trace := trace s ++ es |}.

Definition raise (e : exn) (s : state) : state :=
  emit [] (Halted (Uncaught e)) s.

Definition sys_exit (code : Z) (s : state) : state :=
  emit [EvExit code] (Halted (SystemExit code)) s.

(** Lines 5-6. *)
Definition signal_handler (s : state) : state := sys_exit 0 s.

(** A pending SIGINT is taken between two statements, or cuts short the
    one that blocks ([subprocess.run] waiting for the build): the installed
    handler runs, or Python's default one raises KeyboardInterrupt. *)
Definition deliver_sigint (s : state) : state :=
  let s' := emit [EvSigint] (at_ s) s in
  if installed s then signal_handler s' else raise KeyboardInterrupt s'.

(** One statement of the script at time [t]. *)
Definition exec_stmt (w : world) (t : nat) (s : state) : state :=
  match at_ s with
  | AtSignal =>
      {| at_ := AtBuild; installed := true;
         processes := processes s; trace := trace s ++ [EvSignal] |}
  | AtBuild =>
      match run_returns w cargo_build with
      | Some _ => emit [EvRun cargo_build] AtWatch s
      | None => raise OSError (emit [EvRun cargo_build] AtBuild s)
      end
  | AtWatch =>
      match popen_pid w cargo_watch with
      | Some n =>
          emit [EvPopen cargo_watch (Some n)] (AtRun (mkPopen cargo_watch n)) s
      | None => raise OSError (emit [EvPopen cargo_watch None] AtWatch s)
      end
  | AtRun p0 =>
      match popen_pid w cargo_run with
      | Some n =>
          {| at_ := AtPoll 0; installed := installed s;
             processes := Some [p0; mkPopen cargo_run n];
             trace := trace s ++ [EvPopen cargo_run (Some n)] |}
      | None => raise OSError (emit [EvPopen cargo_run None] (AtRun p0) s)
      end
  | AtPoll i =>
      match processes s with
      | None => raise NameError s
      | Some ps =>
          match nth_error ps i with
          | None => emit [] (AtPoll 0) s
          | Some p =>
              let code := poll_at w t p in
              match code with
              | Some c => emit [EvPoll p code] (AtTerminate 0 c) s
              | None => emit [EvPoll p code] (AtPoll (S i)) s
              end
          end
      end
  | AtTerminate j code =>
      match processes s with
      | None => raise NameError s
      | Some ps =>
          match nth_error ps j with
          | Some p => emit [EvTerminate p] (AtTerminate (S j) code) s
          | None => sys_exit code s
          end
      end
  | Halted _ => s
  end.

Definition step (w : world) (t : nat) (s : state) : state :=
  if halted s then s
  else if sigint w t then deliver_sigint s
  else exec_stmt w t s.

(** The state after [n] steps. *)
Fixpoint run (w : world) (n : nat) : state :=
  match n with
  | O => init
  | S k => step w k (run w k)
  end.

(** No SIGINT is ever delivered. *)
Definition uninterrupted (w : world) : Prop := forall t, sigint w t = false.

(** The same world with another result for the initial build. *)
Definition with_build (w : world) (r : option Z) : world :=
  {| sigint := sigint w; run_returns := fun _ => r;
     popen_pid := popen_pid w; poll_at := poll_at w |}.

(** ** Reading a trace *)

(** An event without its arguments. *)
Inductive kind : Type :=
| KSignal | KRun | KPopen | KPoll | KTerminate | KSigint | KExit.

Definition kind_of (e : event) : kind :=
  match e with
  | EvSignal => KSignal
  | EvRun _ => KRun
  | EvPopen _ _ => KPopen
  | EvPoll _ _ => KPoll
  | EvTerminate _ => KTerminate
  | EvSigint => KSigint
  | EvExit _ => KExit
  end.

Definition kinds (tr : list event) : list kind := map kind_of tr.

(** The startup as the script has it: lines 8, 10, 13, 14. *)
Definition code_startup : list kind := [KSignal; KRun; KPopen; KPopen].

(** The startup in the order the specification lists it: build, the two
    launches, then the handler. *)
Definition spec_startup : list kind := [KRun; KPopen; KPopen; KSignal].

(** The stage of the script an event belongs to: handler, build, launches,
    supervise loop, and last what ends the process. *)
Definition stage (k : kind) : nat :=
  match k with
  | KSignal => 0
  | KRun => 1
  | KPopen => 2
  | KPoll | KTerminate => 3
  | KSigint | KExit => 4
  end.

Definition stage_at (c : pc) : nat :=
  match c with
  | AtSignal => 0
  | AtBuild => 1
  | AtWatch | AtRun _ => 2
  | AtPoll _ | AtTerminate _ _ => 3
  | Halted _ => 4
  end.

(** [ascending l]: no element of [l] is followed by a smaller one. *)
Fixpoint ascending (l : list nat) : Prop :=
  match l with
  | [] => True
  | x :: l' => Forall (fun y => x <= y) l' /\ ascending l'
  end.

(** What belongs to the supervise loop or ends the process. *)
Definition after_startup (k : kind) : bool :=
  match k with
  | KPoll | KTerminate | KSigint | KExit => true
  | _ => false
  end.


(** ** Invariants of the reachable states *)

(** The list is made of the two children started at lines 13 and 14. *)
Definition launched (w : world) (ps : list Popen) : Prop :=
  exists n0 n1,
    popen_pid w cargo_watch = Some n0 /\ popen_pid w cargo_run = Some n1 /\
    ps = [mkPopen cargo_watch n0; mkPopen cargo_run n1].

(** No poll recorded so far has seen a finished child. *)
Definition unseen (s : state) : Prop :=
  forall p c, ~ In (EvPoll p (Some c)) (trace s).

Definition wf (w : world) (s : state) : Prop :=
  (at_ s = AtSignal \/ halted s = true \/ installed s = true)
  /\ (forall ps, processes s = Some ps -> launched w ps)
  /\ match at_ s with
     | AtSignal | AtBuild | AtWatch => processes s = None /\ unseen s
     | AtRun p0 =>
         processes s = None /\ unseen s /\
         exists n0, popen_pid w cargo_watch = Some n0 /\
                    p0 = mkPopen cargo_watch n0
     | AtPoll _ => processes s <> None /\ unseen s
     | AtTerminate _ c =>
         processes s <> None /\ exists p, In (EvPoll p (Some c)) (trace s)
     | Halted (SystemExit c) =>
         In EvSigint (trace s) \/ exists p, In (EvPoll p (Some c)) (trace s)
     | Halted (Uncaught _) => unseen s
     end.

(** Events come in the order of the stages, and none is ahead of the
    control point. *)
Definition staged (s : state) : Prop :=
  Forall (fun e => stage (kind_of e) <= stage_at (at_ s)) (trace s)
  /\ ascending (map stage (kinds (trace s))).


(** The trace of a startup that went through. *)
Definition startup_trace (n0 n1 : Z) : list event :=
  [EvSignal; EvRun cargo_build;
   EvPopen cargo_watch (Some n0); EvPopen cargo_run (Some n1)].

(** Nothing goes wrong during the four startup steps. *)
Definition starts (w : world) (n0 n1 : Z) : Prop :=
  (forall t, t < 4 -> sigint w t = false)
  /\ run_returns w cargo_build <> None
  /\ popen_pid w cargo_watch = Some n0
  /\ popen_pid w cargo_run = Some n1.

(** The supervise loop has been entered (or the process has ended). *)
Definition past_startup (s : state) : Prop := 3 <= stage_at (at_ s).

(** ** Sample worlds *)

(** Children 100 and 200 that both start; the rest is left open. *)
Definition scenario (sig : nat -> bool) (build : option Z)
    (polls : nat -> Popen -> option Z) : world :=
  {| sigint := sig;
     run_returns := fun _ => build;
     popen_pid := fun cmd => if list_eq_dec string_dec cmd cargo_watch
                             then Some 100%Z else Some 200%Z;
     poll_at := polls |}.

Definition never : nat -> bool := fun _ => false.
Definition only_at (t0 : nat) : nat -> bool := fun t => Nat.eqb t t0.

(** The child started from [who] finishes with [code] at time [t0]; the
    other one keeps running. *)
Definition finishes (who : list string) (t0 : nat) (code : Z)
    : nat -> Popen -> option Z :=
  fun t p => if list_eq_dec string_dec (args p) who
             then if Nat.leb t0 t then Some code else None
             else None.

Definition running : nat -> Popen -> option Z := fun _ _ => None.

(** A world in which a command cannot be started. *)
Definition missing (cmd : list string) : world :=
  {| sigint := never;
     run_returns := fun _ => Some 0%Z;
     popen_pid := fun c => if list_eq_dec string_dec c cmd
                           then None else Some 100%Z;
     poll_at := running |}.

(** Both children start and keep running, and nobody interrupts. *)
Definition calm : world := scenario never (Some 0%Z) running.

(** The run child finishes at time 6 with code 2, the watch child one tick
    later with code 1. *)
Definition run_then_watch : nat -> Popen -> option Z :=
  fun t p => if list_eq_dec string_dec (args p) cargo_watch
             then if Nat.leb 7 t then Some 1%Z else None
             else if Nat.leb 6 t then Some 2%Z else None.

Definition watch100 : Popen := mkPopen cargo_watch 100.
Definition run200 : Popen := mkPopen cargo_run 200.

(** ** Projections of a trace *)

(** The handles that were sent [terminate()], in the order of the calls. *)
Definition terminated (tr : list event) : list Popen :=
  flat_map (fun e => match e with EvTerminate p => [p] | _ => [] end) tr.

(** The commands given to [subprocess.Popen], in the order of the calls. *)
Definition launches (tr : list event) : list (list string) :=
  flat_map (fun e => match e with EvPopen cmd _ => [cmd] | _ => [] end) tr.

(** The handles that were polled, in the order of the calls. *)
Definition polled (tr : list event) : list Popen :=
  flat_map (fun e => match e with EvPoll p _ => [p] | _ => [] end) tr.

(** The polls that reported an exit code. *)
Definition finished_polls (tr : list event) : list (Popen * Z) :=
  flat_map (fun e => match e with
                     | EvPoll p (Some c) => [(p, c)]
                     | _ => []
                     end) tr.

(** The handles the global [processes] holds, none while it is unbound. *)
Definition handles (s : state) : list Popen :=
  match processes s with
  | Some ps => ps
  | None => []
  end.

(** What has been launched so far, by control point. *)
Definition launch_inv (s : state) : Prop :=
  match at_ s with
  | AtSignal | AtBuild | AtWatch => launches (trace s) = []
  | AtRun _ => launches (trace s) = [cargo_watch]
  | AtPoll _ | AtTerminate _ _ =>
      launches (trace s) = [cargo_watch; cargo_run]
  | Halted _ =>
      exists k, launches (trace s) = firstn k [cargo_watch; cargo_run]
  end.

(** Who has been sent [terminate()] so far, by control point. *)
Definition terminate_inv (s : state) : Prop :=
  match at_ s with
  | AtTerminate j _ =>
      terminated (trace s) = firstn j (handles s) /\ j <= length (handles s)
  | Halted _ => exists j, terminated (trace s) = firstn j (handles s)
  | _ => terminated (trace s) = []
  end.

(** Either no poll has reported an exit code yet, or exactly one has, it
    was the last poll, and the script is in its shutdown. *)
Definition observe_inv (s : state) : Prop :=
  (finished_polls (trace s) = []
   /\ forall j c, at_ s <> AtTerminate j c)
  \/ (exists pre p c rest,
        trace s = pre ++ EvPoll p (Some c) :: rest
        /\ finished_polls pre = [] /\ polled rest = []
        /\ (halted s = true \/ exists j, at_ s = AtTerminate j c)).

(** No [terminate()] comes before the first poll that reports an exit
    code. *)
Definition shutdown_inv (s : state) : Prop :=
  (finished_polls (trace s) = [] /\ terminated (trace s) = [])
  \/ (exists pre p c rest,
        trace s = pre ++ EvPoll p (Some c) :: rest
        /\ finished_polls pre = [] /\ terminated pre = []).

(** The polls made so far are full sweeps of the list followed by the
    begun one. *)
Definition poll_inv (s : state) : Prop :=
  match at_ s with
  | AtPoll i =>
      i <= length (handles s)
      /\ exists q, polled (trace s) =
                   concat (repeat (handles s) q) ++ firstn i (handles s)
  | AtTerminate _ _ | Halted _ =>
      exists q i, polled (trace s) =
                  concat (repeat (handles s) q) ++ firstn i (handles s)
  | _ => polled (trace s) = [] /\ handles s = []
  end.

(** Only handles of the list are polled. *)
Definition polls_handles (s : state) : Prop :=
  forall p r, In (EvPoll p r) (trace s) -> In p (handles s).

(** A SIGINT that was taken has ended the process. *)
Definition sigint_inv (s : state) : Prop :=
  In EvSigint (trace s) ->
  (at_ s = Halted (SystemExit 0)
   /\ exists tr, trace s = tr ++ [EvSigint; EvExit 0] /\ ~ In EvSigint tr)
  \/ (at_ s = Halted (Uncaught KeyboardInterrupt)
      /\ exists tr, trace s = tr ++ [EvSigint] /\ ~ In EvSigint tr).

(** Where the supervise loop can be once the startup went through. *)
Definition in_loop (h0 h1 : Popen) (s : state) : Prop :=
  processes s = Some [h0; h1]
  /\ ((exists i, i <= 2 /\ at_ s = AtPoll i)
      \/ (exists j c, j <= 2 /\ at_ s = AtTerminate j c)
      \/ (exists c, at_ s = Halted (SystemExit c))).


(** ** The status of the ended process *)

(** What the operating system reports for [sys.exit(code)] on POSIX: the
    low eight bits of the code.  An exit code proper (0 to 255) is its own
    status; [poll()] answers [-k] for a child that signal [k] killed, and
    [sys.exit(-k)] then gives [256 - k]. *)
Definition exit_status (code : Z) : Z := (code mod 256)%Z.

(** The status of the supervisor once it has gone through [sys.exit]. *)
Definition status (s : state) : option Z :=
  match at_ s with
  | Halted (SystemExit c) => Some (exit_status c)
  | _ => None
  end.

(** ** Worlds with a SIGINT at a chosen point *)

(** The run child finishes with 3 and is seen finished by the poll of step
    8; a SIGINT arrives at step 9, before the first [terminate()]. *)
Definition sigint_after_poll : world :=
  scenario (only_at 9) (Some 0%Z) (finishes cargo_run 6 3).


(** The watch child has finished with 7 when the loop starts; a SIGINT
    arrives at step 6, between the two [terminate()] calls. *)
Definition sigint_in_inner_loop : world :=
  scenario (only_at 6) (Some 0%Z) (finishes cargo_watch 0 7).


(** * Properties *)

(** ** Sample runs *)

Example run_exits_3 :
  let w := scenario never (Some 0%Z) (finishes cargo_run 6 3) in
  at_ (run w 12) = Halted (SystemExit 3)
  /\ trace (run w 12) =
     [EvSignal; EvRun cargo_build;
      EvPopen cargo_watch (Some 100%Z); EvPopen cargo_run (Some 200%Z);
      EvPoll watch100 None; EvPoll run200 None;
      EvPoll watch100 None; EvPoll run200 (Some 3%Z);
      EvTerminate watch100; EvTerminate run200; EvExit 3].
Proof. split; reflexivity. Qed.

Example interrupted_in_build :
  let w := scenario (only_at 1) (Some 0%Z) running in
  at_ (run w 2) = Halted (SystemExit 0)
  /\ trace (run w 2) = [EvSignal; EvSigint; EvExit 0].
Proof. split; reflexivity. Qed.

(** A SIGINT taken between the poll that saw the finished child and the
    first [terminate()] ends the supervisor through the handler. *)
Example interrupted_in_shutdown :
  let w := scenario (only_at 9) (Some 0%Z) (finishes cargo_run 6 3) in
  at_ (run w 10) = Halted (SystemExit 0)
  /\ trace (run w 10) =
     [EvSignal; EvRun cargo_build;
      EvPopen cargo_watch (Some 100%Z); EvPopen cargo_run (Some 200%Z);
      EvPoll watch100 None; EvPoll run200 None;
      EvPoll watch100 None; EvPoll run200 (Some 3%Z);
      EvSigint; EvExit 0].
Proof. split; reflexivity. Qed.

Example interrupted_before_handler :
  let w := scenario (only_at 0) (Some 0%Z) running in
  at_ (run w 1) = Halted (Uncaught KeyboardInterrupt).
Proof. reflexivity. Qed.

(** ** One step *)

Section Steps.
Variable w : world.

Lemma step_halted t s : halted s = true -> step w t s = s.
Proof. intros H. unfold step. now rewrite H. Qed.

Lemma run_S n : run w (S n) = step w n (run w n).
Proof. reflexivity. Qed.

(** Once halted, the state no longer changes. *)
Lemma run_halted_stable n m :
  halted (run w n) = true -> n <= m -> run w m = run w n.
Proof.
  intros H Hle. induction Hle as [|m Hle IH]; [reflexivity|].
  rewrite run_S, IH. now apply step_halted.
Qed.

Lemma at_halted s o : at_ s = Halted o -> halted s = true.
Proof. unfold halted. now intros ->. Qed.


Lemma step_sigint t s :
  halted s = false -> sigint w t = true -> step w t s = deliver_sigint s.
Proof. intros H S. unfold step. now rewrite H, S. Qed.

Lemma step_poll_some t s i ps p c :
  sigint w t = false -> at_ s = AtPoll i -> processes s = Some ps ->
  nth_error ps i = Some p -> poll_at w t p = Some c ->
  step w t s = emit [EvPoll p (Some c)] (AtTerminate 0 c) s.
Proof.
  intros S A P N C. unfold step, halted, exec_stmt.
  now rewrite A, S, P, N, C.
Qed.

Lemma step_poll_none t s i ps p :
  sigint w t = false -> at_ s = AtPoll i -> processes s = Some ps ->
  nth_error ps i = Some p -> poll_at w t p = None ->
  step w t s = emit [EvPoll p None] (AtPoll (S i)) s.
Proof.
  intros S A P N C. unfold step, halted, exec_stmt.
  now rewrite A, S, P, N, C.
Qed.

Lemma step_poll_wrap t s i ps :
  sigint w t = false -> at_ s = AtPoll i -> processes s = Some ps ->
  nth_error ps i = None -> step w t s = emit [] (AtPoll 0) s.
Proof.
  intros S A P N. unfold step, halted, exec_stmt. now rewrite A, S, P, N.
Qed.

Lemma step_terminate t s j c ps p :
  sigint w t = false -> at_ s = AtTerminate j c -> processes s = Some ps ->
  nth_error ps j = Some p ->
  step w t s = emit [EvTerminate p] (AtTerminate (S j) c) s.
Proof.
  intros S A P N. unfold step, halted, exec_stmt. now rewrite A, S, P, N.
Qed.

Lemma step_exit t s j c ps :
  sigint w t = false -> at_ s = AtTerminate j c -> processes s = Some ps ->
  nth_error ps j = None -> step w t s = sys_exit c s.
Proof.
  intros S A P N. unfold step, halted, exec_stmt. now rewrite A, S, P, N.
Qed.

End Steps.

(** ** What holds of every reachable state *)

Section Reachable.
Variable w : world.

Lemma unseen_app s es :
  unseen s -> (forall p c, ~ In (EvPoll p (Some c)) es) ->
  forall p c, ~ In (EvPoll p (Some c)) (trace s ++ es).
Proof.
  intros U N p c H. apply in_app_iff in H. destruct H as [H|H].
  - exact (U p c H).
  - exact (N p c H).
Qed.

Ltac not_a_poll :=
  let p := fresh in let c := fresh in let H := fresh in
  intros p c H; cbn in H;
  repeat (destruct H as [H|H]; [discriminate H|]); exact H.

Ltac keep_unseen :=
  match goal with
  | U : unseen _ |- _ =>
      unfold unseen; cbn; try rewrite <- app_assoc;
      first [ rewrite app_nil_r; exact U
            | apply (unseen_app _ _ U); not_a_poll ]
  end.

Lemma wf_init : wf w init.
Proof.
  unfold wf; cbn. repeat split; auto; try discriminate.
  intros p c [].
Qed.

Lemma wf_step t s : wf w s -> wf w (step w t s).
Proof.
  intros W. unfold step.
  destruct (halted s) eqn:Hh; [exact W|].
  destruct W as (I & L & C).
  assert (I' : at_ s <> AtSignal -> installed s = true).
  { intros N. destruct I as [I|[I|I]]; congruence. }
  clear I.
  destruct (sigint w t).
  - (* a SIGINT is taken *)
    unfold deliver_sigint, signal_handler, sys_exit, raise.
    destruct (installed s) eqn:Hi; unfold wf; cbn.
    + repeat split; auto. left. rewrite <- app_assoc.
      apply in_app_iff. right. now left.
    + destruct (at_ s) eqn:A; try (discriminate I'; discriminate).
      destruct C as [_ U]. repeat split; auto. keep_unseen.
  - unfold exec_stmt, raise, sys_exit. unfold halted in Hh.
    destruct (at_ s) as [| | |p0|i|j c|o] eqn:A; try discriminate Hh.
    + destruct C as [P U]. unfold wf; cbn. repeat split; auto. keep_unseen.
    + destruct C as [P U]. specialize (I' ltac:(discriminate)).
      destruct (run_returns w cargo_build); unfold wf; cbn;
        repeat split; auto; keep_unseen.
    + destruct C as [P U]. specialize (I' ltac:(discriminate)).
      destruct (popen_pid w cargo_watch) as [n0|] eqn:E; unfold wf; cbn;
        repeat split; auto; try keep_unseen.
      exists n0. now split.
    + destruct C as (P & U & n0 & E0 & ->).
      specialize (I' ltac:(discriminate)).
      destruct (popen_pid w cargo_run) as [n1|] eqn:E; unfold wf; cbn.
      * repeat split; auto; try discriminate; try keep_unseen.
        intros ps [= <-]. exists n0, n1. now repeat split.
      * repeat split; auto. keep_unseen.
    + destruct C as [P U]. specialize (I' ltac:(discriminate)).
      destruct (processes s) as [ps|] eqn:Ps; [|congruence].
      destruct (nth_error ps i) as [p|]; cbn.
      * destruct (poll_at w t p) as [c|]; unfold wf; cbn; rewrite Ps;
          repeat split; auto; try discriminate.
        -- exists p. apply in_app_iff. right. now left.
        -- keep_unseen.
      * unfold wf; cbn; rewrite Ps; repeat split; auto; try discriminate.
        keep_unseen.
    + destruct C as [P (p & Hp)]. specialize (I' ltac:(discriminate)).
      destruct (processes s) as [ps|] eqn:Ps; [|congruence].
      destruct (nth_error ps j) as [q|]; unfold wf; cbn; rewrite Ps;
        repeat split; auto; try discriminate.
      * exists p. apply in_app_iff. now left.
      * right. exists p. apply in_app_iff. now left.
Qed.

Lemma wf_run n : wf w (run w n).
Proof. induction n; [apply wf_init | now apply wf_step]. Qed.



Lemma processes_launched n ps :
  processes (run w n) = Some ps -> launched w ps.
Proof. intros H. now apply (wf_run n). Qed.

(** [processes] is assigned once: a step leaves a bound list as it is. *)
Lemma step_processes t s ps :
  wf w s -> processes s = Some ps -> processes (step w t s) = Some ps.
Proof.
  intros (_ & _ & C) P. unfold step.
  destruct (halted s); [exact P|]. destruct (sigint w t).
  - unfold deliver_sigint, signal_handler, sys_exit, raise.
    now destruct (installed s).
  - unfold exec_stmt, raise, sys_exit.
    destruct (at_ s); cbn; try (destruct C as [C _]; congruence).
    + rewrite P. destruct (nth_error ps i) as [p|]; [|exact P].
      now destruct (poll_at w t p).
    + rewrite P. now destruct (nth_error ps j).
    + exact P.
Qed.

Lemma processes_stable n m ps :
  processes (run w n) = Some ps -> n <= m -> processes (run w m) = Some ps.
Proof.
  intros P Hle. induction Hle as [|m Hle IH]; [exact P|].
  rewrite run_S. apply step_processes; [apply wf_run | exact IH].
Qed.

End Reachable.

(** ** The order of events *)

(** Case analysis over everything one step looks at. *)
Ltac step_cases :=
  unfold step, deliver_sigint, signal_handler, exec_stmt, sys_exit, raise,
    emit, halted;
  match goal with
  | |- context [at_ ?s] => is_var s; destruct (at_ s) eqn:?
  end;
  repeat (cbn;
          match goal with
          | |- context [match ?x with _ => _ end] => destruct x eqn:?
          end);
  cbn.

Lemma ascending_app l es :
  ascending l -> ascending es ->
  (forall x y, In x l -> In y es -> x <= y) -> ascending (l ++ es).
Proof.
  induction l as [|a l IH]; cbn; intros Hl He Hx; [exact He|].
  destruct Hl as [Ha Hl]. split.
  - apply Forall_app. split; [exact Ha|].
    apply Forall_forall. intros y Hy. apply Hx; auto.
  - apply IH; auto.
Qed.

Section Order.
Variable w : world.

Lemma staged_snoc tr es k k' :
  k <= k' ->
  Forall (fun e => stage (kind_of e) <= k) tr ->
  ascending (map stage (kinds tr)) ->
  Forall (fun e => k <= stage (kind_of e) <= k') es ->
  ascending (map stage (kinds es)) ->
  Forall (fun e => stage (kind_of e) <= k') (tr ++ es)
  /\ ascending (map stage (kinds (tr ++ es))).
Proof.
  intros Hk F A Fe Ae. rewrite Forall_forall in F, Fe. split.
  - apply Forall_forall. intros x Hx. apply in_app_iff in Hx.
    destruct Hx as [Hx|Hx]; [specialize (F x Hx) | specialize (Fe x Hx)]; lia.
  - unfold kinds. rewrite !map_app. apply ascending_app; auto.
    intros x y Hx Hy. unfold kinds in *.
    rewrite map_map in Hx, Hy. apply in_map_iff in Hx, Hy.
    destruct Hx as (e & <- & He). destruct Hy as (e' & <- & He').
    specialize (F e He). specialize (Fe e' He'). lia.
Qed.

Lemma staged_init : staged init.
Proof. split; cbn; auto. Qed.

Lemma staged_step t s : staged s -> staged (step w t s).
Proof.
  unfold staged. step_cases; intros [F A];
    try match goal with H : at_ s = _ |- _ => rewrite ?H end;
    try (split; [exact F | exact A]);
    rewrite ?app_nil_r, <- ?app_assoc; cbn [app];
    try (split; [|exact A]);
    try (eapply staged_snoc; [| exact F | exact A | |]);
    try (eapply Forall_impl; [|exact F]; cbn; intros; lia);
    cbn; repeat constructor; cbn; try lia.
Qed.

Lemma staged_run n : staged (run w n).
Proof. induction n; [apply staged_init | now apply staged_step]. Qed.

End Order.

(** ** The supervise loop when no SIGINT arrives *)

Section Quiet.
Variable w : world.
Hypothesis quiet : uninterrupted w.

Lemma step_no_sigint t s :
  sigint w t = false ->
  ~ In EvSigint (trace s) -> ~ In EvSigint (trace (step w t s)).
Proof.
  step_cases; intros Q N H; try discriminate Q; try (now apply N);
    rewrite ?app_nil_r in H; try (now apply N);
    apply in_app_iff in H; cbn in H;
    repeat (destruct H as [H|H]; try discriminate H; try (now apply N)).
Qed.


(** Lines 21-23: from any position of the inner for, every remaining handle
    is sent [terminate()], then the script exits with [code]. *)
Lemma terminate_rest c l2 : forall l1 n,
  at_ (run w n) = AtTerminate (length l1) c ->
  processes (run w n) = Some (l1 ++ l2) ->
  at_ (run w (n + length l2 + 1)) = Halted (SystemExit c)
  /\ trace (run w (n + length l2 + 1)) =
     trace (run w n) ++ map EvTerminate l2 ++ [EvExit c].
Proof.
  induction l2 as [|p l2 IH]; intros l1 n A P.
  - cbn [length map app]. replace (n + 0 + 1) with (S n) by lia.
    rewrite run_S, (step_exit w n _ _ c _ (quiet n) A P).
    + now split.
    + apply nth_error_None. rewrite app_nil_r. lia.
  - assert (N : nth_error (l1 ++ p :: l2) (length l1) = Some p).
    { rewrite nth_error_app2, Nat.sub_diag by lia. reflexivity. }
    pose proof (step_terminate w n _ _ c _ p (quiet n) A P N) as E.
    destruct (IH (l1 ++ [p]) (S n)) as [IA IT].
    + rewrite run_S, E. cbn. f_equal. rewrite length_app. cbn. lia.
    + rewrite run_S, E. cbn. now rewrite <- app_assoc.
    + replace (n + length (p :: l2) + 1) with (S n + length l2 + 1)
        by (cbn; lia).
      split; [exact IA|]. rewrite IT, run_S, E. cbn.
      now rewrite <- app_assoc.
Qed.

(** Lines 19-23: a poll that sees a finished child is followed by
    [terminate()] on every handle of the list, in list order, and then by
    the exit. *)
Lemma observe_then_shutdown n i ps p c :
  at_ (run w n) = AtPoll i -> processes (run w n) = Some ps ->
  nth_error ps i = Some p -> poll_at w n p = Some c ->
  at_ (run w (n + length ps + 2)) = Halted (SystemExit c)
  /\ trace (run w (n + length ps + 2)) =
     trace (run w n) ++ EvPoll p (Some c) :: map EvTerminate ps ++ [EvExit c].
Proof.
  intros A P N C.
  pose proof (step_poll_some w n _ _ _ _ _ (quiet n) A P N C) as E.
  destruct (terminate_rest c ps [] (S n)) as [IA IT].
  - now rewrite run_S, E.
  - now rewrite run_S, E.
  - replace (n + length ps + 2) with (S n + length ps + 1) by lia.
    split; [exact IA|]. rewrite IT, run_S, E. cbn.
    now rewrite <- app_assoc.
Qed.

(** A poll that finds the child running moves on to the next handle. *)
Lemma observe_running n i ps p :
  at_ (run w n) = AtPoll i -> processes (run w n) = Some ps ->
  nth_error ps i = Some p -> poll_at w n p = None ->
  at_ (run w (S n)) = AtPoll (S i)
  /\ processes (run w (S n)) = Some ps
  /\ trace (run w (S n)) = trace (run w n) ++ [EvPoll p None].
Proof.
  intros A P N C. rewrite run_S.
  rewrite (step_poll_none w n _ _ _ _ (quiet n) A P N C). now cbn.
Qed.


End Quiet.

(** ** Startup *)

Section Startup.
Variable w : world.

Lemma startup_run n0 n1 :
  starts w n0 n1 ->
  run w 4 = {| at_ := AtPoll 0; installed := true;
               processes := Some [mkPopen cargo_watch n0;
                                  mkPopen cargo_run n1];
               trace := startup_trace n0 n1 |}.
Proof.
  intros (Q & B & P0 & P1).
  destruct (run_returns w cargo_build) as [c|] eqn:Eb; [|congruence].
  assert (E1 : run w 1 = {| at_ := AtBuild; installed := true;
                            processes := None; trace := [EvSignal] |}).
  { rewrite run_S. cbn [run]. unfold step. cbn.
    now rewrite (Q 0) by lia. }
  assert (E2 : run w 2 = {| at_ := AtWatch; installed := true;
                            processes := None;
                            trace := [EvSignal; EvRun cargo_build] |}).
  { rewrite run_S, E1. unfold step. cbn. rewrite (Q 1) by lia.
    unfold exec_stmt. cbn. now rewrite Eb. }
  assert (E3 : run w 3 = {| at_ := AtRun (mkPopen cargo_watch n0);
                            installed := true; processes := None;
                            trace := [EvSignal; EvRun cargo_build;
                                      EvPopen cargo_watch (Some n0)] |}).
  { rewrite run_S, E2. unfold step. cbn. rewrite (Q 2) by lia.
    unfold exec_stmt. cbn. now rewrite P0. }
  rewrite run_S, E3. unfold step. cbn. rewrite (Q 3) by lia.
  unfold exec_stmt. cbn. now rewrite P1.
Qed.

(** Inside the loop a step adds polls, terminations and the end of the
    process, nothing else. *)
Lemma loop_step t s :
  past_startup s ->
  past_startup (step w t s)
  /\ exists es, trace (step w t s) = trace s ++ es
                /\ forallb after_startup (kinds es) = true.
Proof.
  unfold past_startup. step_cases; intros H; try lia;
    try match goal with E : at_ s = _ |- _ => rewrite ?E end; cbn;
    (split; [lia|]); rewrite <- ?app_assoc; cbn [app];
    try (eexists; split; [reflexivity|reflexivity]);
    exists []; now rewrite app_nil_r.
Qed.

Lemma loop_run n0 n1 n :
  starts w n0 n1 -> 4 <= n ->
  past_startup (run w n)
  /\ exists rest, trace (run w n) = startup_trace n0 n1 ++ rest
                  /\ forallb after_startup (kinds rest) = true.
Proof.
  intros S Hn. induction Hn as [|n Hn (IP & rest & IT & IR)].
  - rewrite (startup_run n0 n1 S). split; [unfold past_startup; cbn; lia|].
    exists []. now rewrite app_nil_r.
  - rewrite run_S. destruct (loop_step n (run w n) IP) as (P & es & T & R).
    split; [exact P|]. exists (rest ++ es). rewrite T, IT, <- app_assoc.
    split; [reflexivity|]. unfold kinds. rewrite map_app, forallb_app.
    unfold kinds in *. now rewrite IR, R.
Qed.

End Startup.

(** ** Polls and exits *)

Section Polls.
Variable w : world.

Lemma step_poll_answers t s p r :
  In (EvPoll p r) (trace (step w t s)) ->
  In (EvPoll p r) (trace s) \/ poll_at w t p = r.
Proof.
  step_cases; intros H; rewrite ?app_nil_r in H; auto;
    repeat (apply in_app_iff in H; destruct H as [H|H]; auto);
    cbn in H;
    repeat match goal with
           | H : _ \/ _ |- _ => destruct H
           | H : False |- _ => destruct H
           | H : EvPoll _ _ = EvPoll _ _ |- _ => injection H as <- <-
           | H : _ = EvPoll _ _ |- _ => discriminate H
           end;
    auto.
Qed.

(** Every recorded poll is an answer the world gave earlier. *)
Lemma poll_events_are_answers n p r :
  In (EvPoll p r) (trace (run w n)) -> exists t, t < n /\ poll_at w t p = r.
Proof.
  induction n as [|n IH]; [intros []|]. rewrite run_S. intros H.
  destruct (step_poll_answers _ _ _ _ H) as [H'|H'].
  - destruct (IH H') as (t & Ht & E). exists t. split; [lia | exact E].
  - exists n. split; [lia | exact H'].
Qed.




End Polls.

(** ** The exit code *)

Lemma status_of_exit s c :
  at_ s = Halted (SystemExit c) -> status s = Some (c mod 256)%Z.
Proof. unfold status, exit_status. now intros ->. Qed.

(** What holds of a run up to the step at which it has halted holds of it
    at every time. *)
Lemma halted_from w k (P : state -> Prop) :
  halted (run w k) = true ->
  (forall m, m <= k -> P (run w m)) ->
  forall m, P (run w m).
Proof.
  intros Hh H m. destruct (Nat.le_ge_cases m k) as [Hm|Hm].
  - now apply H.
  - rewrite (run_halted_stable w k m Hh Hm). now apply H.
Qed.

(** C1 (as amended): when the supervise loop starts a sweep and exactly
    one of the two children has finished, with code [N], while the other
    one is still running, and no SIGINT is delivered to the supervisor,
    the supervisor ends by [sys.exit(N)]: its exit status is [N mod 256],
    which is [N] itself for every exit code from 0 to 255. *)
Theorem exit_code_of_finished_child w n h0 h1 N :
  uninterrupted w ->
  at_ (run w n) = AtPoll 0 ->
  processes (run w n) = Some [h0; h1] ->
  (poll_at w n h0 = Some N /\ poll_at w (S n) h1 = None) \/
  (poll_at w n h0 = None /\ poll_at w (S n) h1 = Some N) ->
  exists m, m <= n + 5
            /\ at_ (run w m) = Halted (SystemExit N)
            /\ status (run w m) = Some (N mod 256)%Z
            /\ last (trace (run w m)) EvSignal = EvExit N.
Proof.
  intros Q A P [[C0 C1]|[C0 C1]].
  - destruct (observe_then_shutdown w Q n 0 _ h0 N A P eq_refl C0) as [H T].
    exists (n + 2 + 2). split; [lia|]. split; [exact H|].
    split; [exact (status_of_exit _ _ H)|].
    cbn [length] in T. rewrite T.
    change (EvPoll h0 (Some N) :: map EvTerminate [h0; h1] ++ [EvExit N])
      with ([EvPoll h0 (Some N); EvTerminate h0; EvTerminate h1]
              ++ [EvExit N]).
    now rewrite app_assoc, last_last.
  - destruct (observe_running w Q n 0 _ h0 A P eq_refl C0) as (A1 & P1 & T1).
    destruct (observe_then_shutdown w Q (S n) 1 _ h1 N A1 P1 eq_refl C1)
      as [H T].
    exists (S n + 2 + 2). split; [lia|]. split; [exact H|].
    split; [exact (status_of_exit _ _ H)|].
    cbn [length] in T. rewrite T.
    change (EvPoll h1 (Some N) :: map EvTerminate [h0; h1] ++ [EvExit N])
      with ([EvPoll h1 (Some N); EvTerminate h0; EvTerminate h1]
              ++ [EvExit N]).
    now rewrite app_assoc, last_last.
Qed.

Lemma exit_code_of_finished_child_witness :
  exists m, m <= 7 + 5
    /\ at_ (run (scenario never (Some 0%Z) (finishes cargo_run 6 3)) m)
       = Halted (SystemExit 3)
    /\ status (run (scenario never (Some 0%Z) (finishes cargo_run 6 3)) m)
       = Some (3 mod 256)%Z
    /\ last (trace (run (scenario never (Some 0%Z) (finishes cargo_run 6 3)) m))
            EvSignal = EvExit 3.
Proof.
  apply (exit_code_of_finished_child
           (scenario never (Some 0%Z) (finishes cargo_run 6 3))
           7 watch100 run200 3).
  - intros t. reflexivity.
  - reflexivity.
  - reflexivity.
  - right. split; reflexivity.
Defined.

(** C1 as the specification states it, without the proviso, fails: the
    sweep of step 7 finds the watch child running and the run child
    finished with 3, a SIGINT is taken at step 9, after the poll and
    before line 22, and the supervisor exits with 0; it never exits
    with 3. *)
Lemma exit_code_lost_to_sigint :
  at_ (run sigint_after_poll 7) = AtPoll 0
  /\ processes (run sigint_after_poll 7) = Some [watch100; run200]
  /\ poll_at sigint_after_poll 7 watch100 = None
  /\ poll_at sigint_after_poll 8 run200 = Some 3%Z
  /\ trace (run sigint_after_poll 10) =
     [EvSignal; EvRun cargo_build;
      EvPopen cargo_watch (Some 100%Z); EvPopen cargo_run (Some 200%Z);
      EvPoll watch100 None; EvPoll run200 None;
      EvPoll watch100 None; EvPoll run200 (Some 3%Z);
      EvSigint; EvExit 0]
  /\ status (run sigint_after_poll 10) = Some 0%Z
  /\ forall m, at_ (run sigint_after_poll m) <> Halted (SystemExit 3).
Proof.
  repeat (split; [reflexivity|]).
  apply (halted_from sigint_after_poll 10
           (fun s => at_ s <> Halted (SystemExit 3))); [reflexivity|].
  intros m Hm.
  do 11 (destruct m as [|m]; [vm_compute; discriminate|]). lia.
Qed.




(** ** Shutdown *)

(** C3 (as amended): whenever a poll of the supervise loop sees that a
    child has finished, and no SIGINT is delivered to the supervisor,
    every other handle of the list is sent [terminate()] after that poll
    and before the supervisor's [sys.exit], which is the last thing the
    supervisor does. *)
Theorem sibling_terminated_before_exit w n i ps p c q :
  uninterrupted w ->
  at_ (run w n) = AtPoll i ->
  processes (run w n) = Some ps ->
  nth_error ps i = Some p ->
  poll_at w n p = Some c ->
  In q ps -> q <> p ->
  exists m pre post,
    at_ (run w m) = Halted (SystemExit c)
    /\ trace (run w m) =
       trace (run w n)
         ++ EvPoll p (Some c) :: pre ++ EvTerminate q :: post ++ [EvExit c].
Proof.
  intros Q A P N C Hq _.
  destruct (observe_then_shutdown w Q n i ps p c A P N C) as [H T].
  destruct (in_split q ps Hq) as (l1 & l2 & ->).
  exists (n + length (l1 ++ q :: l2) + 2),
         (map EvTerminate l1), (map EvTerminate l2).
  split; [exact H|]. rewrite T, map_app. cbn [map].
  now rewrite <- app_assoc.
Qed.

Lemma sibling_terminated_before_exit_witness :
  exists m pre post,
    at_ (run (scenario never (Some 0%Z) (finishes cargo_run 6 3)) m)
    = Halted (SystemExit 3)
    /\ trace (run (scenario never (Some 0%Z) (finishes cargo_run 6 3)) m) =
       trace (run (scenario never (Some 0%Z) (finishes cargo_run 6 3)) 8)
         ++ EvPoll run200 (Some 3%Z)
            :: pre ++ EvTerminate watch100 :: post ++ [EvExit 3].
Proof.
  apply (sibling_terminated_before_exit
           (scenario never (Some 0%Z) (finishes cargo_run 6 3))
           8 1 [watch100; run200] run200 3 watch100).
  - intros t. reflexivity.
  - reflexivity.
  - reflexivity.
  - reflexivity.
  - reflexivity.
  - left. reflexivity.
  - discriminate.
Defined.

(** C3 as the specification states it, without the proviso, fails: the
    poll of step 8 sees the run child finished, a SIGINT is taken at step
    9, and the supervisor exits through the handler; the watch child is
    never sent [terminate()], nor is anybody else. *)
Lemma sibling_not_terminated_on_sigint :
  at_ (run sigint_after_poll 8) = AtPoll 1
  /\ processes (run sigint_after_poll 8) = Some [watch100; run200]
  /\ poll_at sigint_after_poll 8 run200 = Some 3%Z
  /\ In (EvPoll run200 (Some 3%Z)) (trace (run sigint_after_poll 9))
  /\ at_ (run sigint_after_poll 10) = Halted (SystemExit 0)
  /\ forall m, terminated (trace (run sigint_after_poll m)) = [].
Proof.
  do 3 (split; [reflexivity|]).
  split; [vm_compute; do 7 right; now left|].
  split; [reflexivity|].
  apply (halted_from sigint_after_poll 10
           (fun s => terminated (trace s) = [])); [reflexivity|].
  intros m Hm.
  do 11 (destruct m as [|m]; [reflexivity|]). lia.
Qed.

(** C10 (as amended): when no SIGINT is delivered to the supervisor, the
    shutdown that a finished child triggers sends [terminate()] to every
    handle of the process list, in list order, the finished child that
    triggered it included. *)
Theorem terminate_sent_to_all w n i ps p c :
  uninterrupted w ->
  at_ (run w n) = AtPoll i ->
  processes (run w n) = Some ps ->
  nth_error ps i = Some p ->
  poll_at w n p = Some c ->
  trace (run w (n + length ps + 2)) =
    trace (run w n) ++ EvPoll p (Some c) :: map EvTerminate ps ++ [EvExit c]
  /\ In (EvTerminate p) (map EvTerminate ps)
  /\ forall q, In q ps -> In (EvTerminate q) (trace (run w (n + length ps + 2))).
Proof.
  intros Q A P N C.
  destruct (observe_then_shutdown w Q n i ps p c A P N C) as [_ T].
  split; [exact T|]. split.
  - apply in_map. eapply nth_error_In. exact N.
  - intros q Hq. rewrite T. apply in_app_iff. right. right.
    apply in_app_iff. left. now apply in_map.
Qed.

Lemma terminate_sent_to_all_witness :
  In (EvTerminate watch100)
     (trace (run (scenario never (Some 0%Z) (finishes cargo_watch 0 7))
                 (4 + 2 + 2))).
Proof.
  apply (terminate_sent_to_all
           (scenario never (Some 0%Z) (finishes cargo_watch 0 7))
           4 0 [watch100; run200] watch100 7).
  - intros t. reflexivity.
  - reflexivity.
  - reflexivity.
  - reflexivity.
  - reflexivity.
  - left. reflexivity.
Defined.

(** C10 as the specification states it, without the proviso, fails: the
    watch child is seen finished at step 4 and is sent [terminate()] at
    step 5; a SIGINT is taken at step 6, before the second turn of the
    inner for, and the supervisor exits through the handler: the run
    child, a handle of the list, is never sent [terminate()]. *)
Lemma terminate_cut_short_by_sigint :
  at_ (run sigint_in_inner_loop 4) = AtPoll 0
  /\ processes (run sigint_in_inner_loop 4) = Some [watch100; run200]
  /\ poll_at sigint_in_inner_loop 4 watch100 = Some 7%Z
  /\ trace (run sigint_in_inner_loop 7) =
     [EvSignal; EvRun cargo_build;
      EvPopen cargo_watch (Some 100%Z); EvPopen cargo_run (Some 200%Z);
      EvPoll watch100 (Some 7%Z); EvTerminate watch100;
      EvSigint; EvExit 0]
  /\ at_ (run sigint_in_inner_loop 7) = Halted (SystemExit 0)
  /\ forall m, ~ In (EvTerminate run200) (trace (run sigint_in_inner_loop m)).
Proof.
  repeat (split; [reflexivity|]).
  apply (halted_from sigint_in_inner_loop 7
           (fun s => ~ In (EvTerminate run200) (trace s))); [reflexivity|].
  intros m Hm.
  do 8 (destruct m as [|m]; [vm_compute; intuition discriminate|]). lia.
Qed.

(** ** The busy loop *)




(** ** Interrupts *)




(** ** The initial build *)

Lemma step_with_build w c1 c2 t s :
  step (with_build w (Some c1)) t s = step (with_build w (Some c2)) t s.
Proof. unfold step, exec_stmt. cbn. reflexivity. Qed.

(** C5: the return code of the initial build has no influence: two worlds
    that differ in it alone give the same states at every time, hence the
    same exit code, and however the build ended the two children are
    launched. *)
Theorem build_result_ignored w c1 c2 :
  (forall n, run (with_build w (Some c1)) n = run (with_build w (Some c2)) n)
  /\ (forall n0 n1, starts (with_build w (Some c1)) n0 n1 ->
        at_ (run (with_build w (Some c1)) 4) = AtPoll 0
        /\ processes (run (with_build w (Some c1)) 4) =
           Some [mkPopen cargo_watch n0; mkPopen cargo_run n1]).
Proof.
  split.
  - induction n as [|n IH]; [reflexivity|].
    rewrite !run_S, IH. apply step_with_build.
  - intros n0 n1 Hs.
    rewrite (startup_run (with_build w (Some c1)) n0 n1 Hs). now split.
Qed.

Lemma build_result_ignored_witness :
  at_ (run (with_build calm (Some 101%Z)) 4) = AtPoll 0
  /\ processes (run (with_build calm (Some 101%Z)) 4) =
     Some [watch100; run200].
Proof.
  apply (proj2 (build_result_ignored calm 101 0) 100%Z 200%Z).
  repeat split; try reflexivity. discriminate.
Defined.

(** ** Launch failures *)



(** ** The process list *)

(** C8: once [processes] is bound it holds exactly the two handles that
    lines 13 and 14 created, and it is that same list at every later time;
    before, the name is unbound. *)
Theorem process_list_fixed w n ps :
  processes (run w n) = Some ps ->
  launched w ps
  /\ length ps = 2
  /\ (forall m, n <= m -> processes (run w m) = Some ps)
  /\ (forall m, processes (run w m) = None \/ processes (run w m) = Some ps).
Proof.
  intros P. pose proof (processes_launched w n ps P) as L.
  split; [exact L|]. split.
  { destruct L as (n0 & n1 & _ & _ & ->). reflexivity. }
  split.
  { intros m Hm. now apply (processes_stable w n). }
  intros m. destruct (processes (run w m)) as [ps'|] eqn:P'; [|now left].
  right. destruct (Nat.le_ge_cases n m) as [H|H].
  - rewrite (processes_stable w n m ps P H) in P'. now rewrite P'.
  - rewrite (processes_stable w m n ps' P' H) in P. exact P.
Qed.

Lemma process_list_fixed_witness :
  launched calm [watch100; run200]
  /\ length [watch100; run200] = 2
  /\ (forall m, 9 <= m -> processes (run calm m) = Some [watch100; run200])
  /\ (forall m, processes (run calm m) = None
                \/ processes (run calm m) = Some [watch100; run200]).
Proof.
  apply (process_list_fixed calm 9 [watch100; run200]).
  reflexivity.
Defined.

(** ** The order of the startup *)

(** C2 (as amended): the startup actions come in the order of the script:
    the interrupt handler is installed first, then the build is run to
    completion, then the two children are launched, then the polling loop
    is entered.  In every run the events respect that order, and a startup
    in which nothing fails performs all four. *)
Theorem startup_in_script_order w n :
  ascending (map stage (kinds (trace (run w n))))
  /\ (forall n0 n1, starts w n0 n1 -> 4 <= n ->
        at_ (run w 4) = AtPoll 0
        /\ firstn 4 (kinds (trace (run w n))) = code_startup
        /\ forallb after_startup (skipn 4 (kinds (trace (run w n)))) = true).
Proof.
  split; [apply staged_run|].
  intros n0 n1 Hs Hn. split; [now rewrite (startup_run w n0 n1 Hs)|].
  destruct (loop_run w n0 n1 n Hs Hn) as (_ & rest & -> & R).
  split; [reflexivity | exact R].
Qed.

Lemma startup_in_script_order_witness :
  at_ (run calm 4) = AtPoll 0
  /\ firstn 4 (kinds (trace (run calm 6))) = code_startup
  /\ forallb after_startup (skipn 4 (kinds (trace (run calm 6)))) = true.
Proof.
  apply (proj2 (startup_in_script_order calm 6) 100%Z 200%Z).
  - repeat split; try reflexivity. discriminate.
  - lia.
Defined.

(** C2 as the specification states it, with the handler installed after
    the launches, fails on a startup in which nothing goes wrong: the
    handler comes first. *)
Lemma spec_order_refuted :
  starts calm 100 200
  /\ firstn 4 (kinds (trace (run calm 6))) <> spec_startup
  /\ kinds (trace (run calm 1)) = [KSignal].
Proof.
  split; [|split].
  - repeat split; try reflexivity. discriminate.
  - discriminate.
  - reflexivity.
Qed.

(** * Further properties of the script *)

(** Case analysis over one step, innermost test first. *)
Ltac step_inside :=
  unfold step, deliver_sigint, signal_handler, exec_stmt, sys_exit, raise,
    emit, halted;
  match goal with
  | |- context [at_ ?s] => is_var s; destruct (at_ s) eqn:?
  end;
  repeat (cbn;
          match goal with
          | |- context [match ?x with _ => _ end] =>
              lazymatch x with
              | context [match _ with _ => _ end] => fail
              | _ => destruct x eqn:?
              end
          end);
  cbn.

#[local] Arguments launches : simpl never.
#[local] Arguments terminated : simpl never.
#[local] Arguments polled : simpl never.
#[local] Arguments finished_polls : simpl never.

(** ** Traces only grow *)

Lemma step_trace_grows w t s : exists es, trace (step w t s) = trace s ++ es.
Proof.
  step_cases; rewrite <- ?app_assoc; eauto;
    exists []; now rewrite app_nil_r.
Qed.

Lemma trace_grows w n m :
  n <= m -> exists es, trace (run w m) = trace (run w n) ++ es.
Proof.
  intros Hle. induction Hle as [|m Hle [es IH]].
  - exists []. now rewrite app_nil_r.
  - destruct (step_trace_grows w m (run w m)) as [es' E].
    exists (es ++ es'). now rewrite run_S, E, IH, app_assoc.
Qed.

Lemma launches_app a b : launches (a ++ b) = launches a ++ launches b.
Proof. apply flat_map_app. Qed.

Lemma terminated_app a b : terminated (a ++ b) = terminated a ++ terminated b.
Proof. apply flat_map_app. Qed.

Lemma polled_app a b : polled (a ++ b) = polled a ++ polled b.
Proof. apply flat_map_app. Qed.

Lemma finished_polls_app a b :
  finished_polls (a ++ b) = finished_polls a ++ finished_polls b.
Proof. apply flat_map_app. Qed.

(** ** Launches *)

Lemma launch_inv_step w t s : launch_inv s -> launch_inv (step w t s).
Proof.
  unfold launch_inv. step_inside; intros H; try congruence;
    try match goal with E : at_ s = _ |- _ => rewrite ?E end;
    rewrite ?app_nil_r, ?launches_app, ?H; cbn; auto;
    try (exists 0; reflexivity); try (exists 1; reflexivity);
    try (exists 2; reflexivity);
    try match goal with
        | H : exists _, _ |- _ => exact H
        end.
Qed.

Lemma launch_inv_run w n : launch_inv (run w n).
Proof. induction n; [reflexivity | now apply launch_inv_step]. Qed.

(** ** Terminations *)

Lemma firstn_snoc_nth {A} (l : list A) : forall j p,
  nth_error l j = Some p -> firstn (S j) l = firstn j l ++ [p].
Proof.
  induction l as [|a l IH]; intros [|j] p H; try discriminate H.
  - now injection H as ->.
  - cbn [firstn app]. cbn [nth_error] in H. now rewrite <- (IH j p H).
Qed.

(** Evaluate the projections of the events a step has added. *)
Ltac eval_added :=
  repeat match goal with
         | |- context [terminated (?e :: ?l)] =>
             let v := eval cbv in (terminated (e :: l)) in
             change (terminated (e :: l)) with v
         | |- context [launches (?e :: ?l)] =>
             let v := eval cbv in (launches (e :: l)) in
             change (launches (e :: l)) with v
         | |- context [polled (?e :: ?l)] =>
             let v := eval cbv in (polled (e :: l)) in
             change (polled (e :: l)) with v
         | |- context [finished_polls (?e :: ?l)] =>
             let v := eval cbv in (finished_polls (e :: l)) in
             change (finished_polls (e :: l)) with v
         end.

Lemma terminate_inv_step w t s : terminate_inv s -> terminate_inv (step w t s).
Proof.
  unfold terminate_inv, handles. step_inside; intros H; try congruence;
    try match goal with E : at_ s = _ |- _ => rewrite ?E end;
    try match goal with E : processes s = _ |- _ => rewrite ?E end;
    rewrite ?app_nil_r, <- ?app_assoc, ?terminated_app; cbn [app];
    eval_added.
  all: try match goal with H : _ /\ _ |- _ => destruct H as [H Hj] end.
  all: try match goal with H : terminated _ = _ |- _ => rewrite ?H end.
  all: rewrite ?app_nil_r.
  all: try reflexivity.
  all: try (exists 0; reflexivity).
  all: try (eexists; reflexivity).
  all: try assumption.
  - split; [reflexivity | lia].
  - match goal with E : nth_error [] _ = Some _ |- _ =>
      now destruct j; discriminate E end.
  - match goal with E : nth_error (?a :: ?l) j = Some p |- _ =>
      rewrite <- (firstn_snoc_nth (a :: l) j p E); split; [reflexivity|];
      assert (N : nth_error (a :: l) j <> None) by congruence;
      apply nth_error_Some in N; cbn [length] in N; lia
    end.
Qed.

Lemma terminate_inv_run w n : terminate_inv (run w n).
Proof. induction n; [reflexivity | now apply terminate_inv_step]. Qed.

(** ** Observations *)

Lemma observe_inv_step w t s : observe_inv s -> observe_inv (step w t s).
Proof.
  intros [[U N] | (pre & p & c & rest & T & Fp & Pr & Hs)].
  - revert U N. unfold observe_inv. step_inside; intros U N;
      try congruence;
      try (exfalso; eapply N; reflexivity);
      try (left; split; [|intros; discriminate];
           rewrite ?app_nil_r, <- ?app_assoc, ?finished_polls_app, ?U;
           cbn [app]; eval_added; now rewrite ?U);
      try (left; split; [exact U | intros; congruence]).
    right. eexists (trace s), _, _, []. repeat split; eauto.
  - destruct Hs as [Hh | [j A]].
    + rewrite (step_halted w t s Hh). right.
      exists pre, p, c, rest. auto.
    + assert (K : forall s' es,
                 trace s' = trace s ++ es -> polled es = [] ->
                 (halted s' = true \/ exists j', at_ s' = AtTerminate j' c) ->
                 observe_inv s').
      { intros s' es Te Pe Hn. right. exists pre, p, c, (rest ++ es).
        rewrite Te, T, <- app_assoc. cbn [app].
        rewrite polled_app, Pr, Pe. repeat split; auto. }
      unfold step, halted. rewrite A. destruct (sigint w t).
      * unfold deliver_sigint, signal_handler, sys_exit, raise.
        destruct (installed s).
        -- apply (K _ [EvSigint; EvExit 0]);
             [cbn; now rewrite <- app_assoc | reflexivity | now left].
        -- apply (K _ [EvSigint]);
             [cbn; now rewrite app_nil_r | reflexivity | now left].
      * unfold exec_stmt, sys_exit, raise. rewrite A.
        destruct (processes s) as [ps|].
        -- destruct (nth_error ps j) as [q|].
           ++ apply (K _ [EvTerminate q]);
                [reflexivity | reflexivity | right; cbn; eauto].
           ++ apply (K _ [EvExit c]);
                [reflexivity | reflexivity | now left].
        -- apply (K _ []); [reflexivity | reflexivity | now left].
Qed.

Lemma observe_inv_run w n : observe_inv (run w n).
Proof.
  induction n; [|now apply observe_inv_step].
  left. split; [reflexivity | intros; discriminate].
Qed.

(** ** Interrupts that were taken *)

Lemma sigint_inv_step w t s : sigint_inv s -> sigint_inv (step w t s).
Proof.
  intros IH. destruct (halted s) eqn:Hh.
  { now rewrite (step_halted w t s Hh). }
  assert (N : ~ In EvSigint (trace s)).
  { intros H. unfold halted in Hh.
    destruct (IH H) as [[A _]|[A _]]; now rewrite A in Hh. }
  destruct (sigint w t) eqn:Hs.
  - rewrite (step_sigint w t s Hh Hs). intros _.
    unfold deliver_sigint, signal_handler, sys_exit, raise.
    destruct (installed s); cbn.
    + left. split; [reflexivity|]. exists (trace s).
      now rewrite <- app_assoc.
    + right. split; [reflexivity|]. exists (trace s).
      now rewrite app_nil_r.
  - intros H. now apply (step_no_sigint w t s Hs N) in H.
Qed.

Lemma sigint_inv_run w n : sigint_inv (run w n).
Proof. induction n; [intros [] | now apply sigint_inv_step]. Qed.

(** ** The loop after a startup that went through *)

Lemma in_loop_step w t s h0 h1 :
  sigint w t = false -> in_loop h0 h1 s -> in_loop h0 h1 (step w t s).
Proof.
  intros Q [P [(i & Hi & A) | [(j & c & Hj & A) | (c & A)]]].
  - destruct (nth_error [h0; h1] i) as [p|] eqn:N.
    + destruct (poll_at w t p) as [c|] eqn:C.
      * rewrite (step_poll_some w t s i _ p c Q A P N C).
        split; [exact P|]. right. left. exists 0, c. split; [lia|reflexivity].
      * rewrite (step_poll_none w t s i _ p Q A P N C).
        split; [exact P|]. left. exists (S i). split; [|reflexivity].
        assert (L : nth_error [h0; h1] i <> None) by congruence.
        apply nth_error_Some in L. cbn in L. lia.
    + rewrite (step_poll_wrap w t s i _ Q A P N).
      split; [exact P|]. left. exists 0. split; [lia|reflexivity].
  - destruct (nth_error [h0; h1] j) as [p|] eqn:N.
    + rewrite (step_terminate w t s j c _ p Q A P N).
      split; [exact P|]. right. left. exists (S j), c. split; [|reflexivity].
      assert (L : nth_error [h0; h1] j <> None) by congruence.
      apply nth_error_Some in L. cbn in L. lia.
    + rewrite (step_exit w t s j c _ Q A P N).
      split; [exact P|]. right. right. now exists c.
  - rewrite (step_halted w t s (at_halted s _ A)).
    split; [exact P|]. right. right. now exists c.
Qed.

Lemma in_loop_run w n0 n1 n :
  uninterrupted w -> starts w n0 n1 -> 4 <= n ->
  in_loop (mkPopen cargo_watch n0) (mkPopen cargo_run n1) (run w n).
Proof.
  intros Q Hs Hn. induction Hn as [|n Hn IH].
  - rewrite (startup_run w n0 n1 Hs). split; [reflexivity|].
    left. exists 0. split; [lia|reflexivity].
  - rewrite run_S. apply in_loop_step; [apply Q | exact IH].
Qed.

(** ** Shutdown comes after the observation *)

Lemma finished_polls_In tr p c :
  In (EvPoll p (Some c)) tr <-> In (p, c) (finished_polls tr).
Proof.
  unfold finished_polls. rewrite in_flat_map. split.
  - intros H. exists (EvPoll p (Some c)). split; [exact H | now left].
  - intros (e & He & Hin). destruct e as [| | |q [d|]| | |]; cbn in Hin;
      try contradiction.
    destruct Hin as [[= -> ->]|[]]. exact He.
Qed.

Lemma terminated_In tr q :
  In (EvTerminate q) tr <-> In q (terminated tr).
Proof.
  unfold terminated. rewrite in_flat_map. split.
  - intros H. exists (EvTerminate q). split; [exact H | now left].
  - intros (e & He & Hin). destruct e; cbn in Hin; try contradiction.
    destruct Hin as [->|[]]. exact He.
Qed.

Lemma shutdown_inv_step w t s :
  wf w s -> shutdown_inv s -> shutdown_inv (step w t s).
Proof.
  intros W [[F T] | (pre & p & c & rest & E & Fp & Tp)].
  - assert (N : forall j c, at_ s <> AtTerminate j c).
    { intros j c A. destruct W as (_ & _ & C). rewrite A in C.
      destruct C as (_ & p & Hp). apply finished_polls_In in Hp.
      now rewrite F in Hp. }
    revert F T N. unfold shutdown_inv. step_inside; intros F T N;
      try congruence;
      try (exfalso; eapply N; reflexivity);
      try (left; split; [exact F | exact T]);
      try (left;
           rewrite ?app_nil_r, <- ?app_assoc, ?finished_polls_app,
             ?terminated_app, ?F, ?T;
           cbn [app]; eval_added; now split).
    right. eexists (trace s), _, _, []. repeat split; eauto.
  - destruct (step_trace_grows w t s) as [es Es]. right.
    exists pre, p, c, (rest ++ es). rewrite Es, E, <- app_assoc.
    now repeat split.
Qed.

Lemma shutdown_inv_run w n : shutdown_inv (run w n).
Proof.
  induction n; [now left|].
  rewrite run_S. apply shutdown_inv_step; [apply wf_run | exact IHn].
Qed.

(** A run in which no poll has reported an exit code has sent no
    [terminate()], and neither has any earlier state of it. *)
Lemma unobserved_terminates_nobody w n :
  finished_polls (trace (run w n)) = [] ->
  halted (run w n) = true ->
  forall m, terminated (trace (run w m)) = [].
Proof.
  intros F Hh m.
  assert (T : terminated (trace (run w n)) = []).
  { destruct (shutdown_inv_run w n) as [[_ T]|(pre & p & c & rest & E & _)];
      [exact T|].
    rewrite E, finished_polls_app in F. apply app_eq_nil in F.
    destruct F as [_ F]. discriminate F. }
  destruct (Nat.le_ge_cases n m) as [H|H].
  - now rewrite (run_halted_stable w n m Hh H).
  - destruct (trace_grows w m n H) as [es E].
    rewrite E, terminated_app in T. now apply app_eq_nil in T.
Qed.

(** ** The rotation of the polls *)

Lemma concat_repeat_snoc {A} (l : list A) q :
  concat (repeat l q) ++ l = concat (repeat l (S q)).
Proof.
  induction q as [|q IH]; cbn [repeat concat] in *.
  - now rewrite app_nil_r.
  - now rewrite <- app_assoc, IH.
Qed.

Lemma poll_inv_step w t s : poll_inv s -> poll_inv (step w t s).
Proof.
  intros H. destruct (halted s) eqn:Hh.
  { now rewrite (step_halted w t s Hh). }
  assert (G : exists q i, polled (trace s) =
                concat (repeat (handles s) q) ++ firstn i (handles s)).
  { unfold poll_inv in H. unfold halted in Hh.
    destruct (at_ s); try discriminate Hh;
      try (destruct H as [-> ->]; now exists 0, 0);
      try exact H.
    destruct H as (_ & q & E). eauto. }
  destruct (sigint w t) eqn:Q.
  - rewrite (step_sigint w t s Hh Q).
    unfold deliver_sigint, signal_handler, sys_exit, raise, poll_inv, handles.
    destruct G as (q & i & E).
    destruct (installed s); cbn; exists q, i;
      rewrite <- ?app_assoc, ?app_nil_r, polled_app; cbn [app]; eval_added;
      now rewrite app_nil_r.
  - unfold step. rewrite Hh, Q. clear G.
    unfold poll_inv, exec_stmt, sys_exit, raise, handles in *.
    destruct (at_ s) as [| | |p0|i|j c|o] eqn:A.
    + destruct H as [P Hs]. cbn. rewrite polled_app, P. now eval_added.
    + destruct H as [P Hs]. destruct (run_returns w cargo_build); cbn;
        rewrite ?app_nil_r, polled_app, P; eval_added; [now split|].
      exists 0, 0. destruct (processes s); [now subst|reflexivity].
    + destruct H as [P Hs]. destruct (popen_pid w cargo_watch); cbn;
        rewrite ?app_nil_r, polled_app, P; eval_added; [now split|].
      exists 0, 0. destruct (processes s); [now subst|reflexivity].
    + destruct H as [P Hs]. destruct (popen_pid w cargo_run); cbn;
        rewrite ?app_nil_r, polled_app, P; eval_added.
      * split; [lia|]. now exists 0.
      * exists 0, 0. destruct (processes s); [now subst|reflexivity].
    + destruct H as (Hi & q & E).
      destruct (processes s) as [ps|] eqn:Ps.
      * destruct (nth_error ps i) as [p|] eqn:N.
        -- assert (L : S i <= length ps).
           { assert (L : nth_error ps i <> None) by congruence.
             apply nth_error_Some in L. lia. }
           destruct (poll_at w t p); cbn; rewrite Ps, polled_app, E;
             eval_added; rewrite <- app_assoc,
                           <- (firstn_snoc_nth ps i p N).
           ++ now exists q, (S i).
           ++ split; [exact L|]. now exists q.
        -- cbn. rewrite Ps, app_nil_r, E. split; [lia|]. exists (S q).
           apply nth_error_None in N.
           rewrite firstn_all2 by exact N.
           now rewrite concat_repeat_snoc, app_nil_r.
      * cbn. rewrite Ps, app_nil_r, E. now exists q, i.
    + destruct H as (q & i & E).
      destruct (processes s) as [ps|] eqn:Ps.
      * destruct (nth_error ps j); cbn; rewrite Ps, polled_app, E;
          eval_added; rewrite app_nil_r; now exists q, i.
      * cbn. rewrite Ps, app_nil_r, E. now exists q, i.
    + unfold halted in Hh. rewrite A in Hh. discriminate Hh.
Qed.

Lemma poll_inv_run w n : poll_inv (run w n).
Proof. induction n; [now split | now apply poll_inv_step]. Qed.

Lemma polls_handles_step w t s :
  wf w s -> staged s -> polls_handles s -> polls_handles (step w t s).
Proof.
  intros W [St _] H. destruct (halted s) eqn:Hh.
  { now rewrite (step_halted w t s Hh). }
  assert (K : forall s' es,
             trace s' = trace s ++ es -> handles s' = handles s ->
             (forall p r, In (EvPoll p r) es -> In p (handles s)) ->
             polls_handles s').
  { intros s' es Te He Hes p r Hin. rewrite He. rewrite Te in Hin.
    apply in_app_iff in Hin. destruct Hin as [Hin|Hin]; eauto. }
  assert (No : forall es, (forall e, In e es -> kind_of e <> KPoll) ->
                 forall p r, In (EvPoll p r) es -> In p (handles s)).
  { intros es Hk p r Hin. now destruct (Hk _ Hin). }
  destruct (sigint w t) eqn:Q.
  - rewrite (step_sigint w t s Hh Q).
    unfold deliver_sigint, signal_handler, sys_exit, raise.
    destruct (installed s).
    + apply (K _ [EvSigint; EvExit 0]);
        [cbn; now rewrite <- app_assoc | reflexivity |].
      apply No. intros e [<-|[<-|[]]]; discriminate.
    + apply (K _ [EvSigint]);
        [cbn; now rewrite app_nil_r | reflexivity |].
      apply No. intros e [<-|[]]; discriminate.
  - unfold step. rewrite Hh, Q. unfold exec_stmt, sys_exit, raise.
    destruct (at_ s) as [| | |p0|i|j c|o] eqn:A.
    + apply (K _ [EvSignal]); [reflexivity | reflexivity |].
      apply No. intros e [<-|[]]; discriminate.
    + destruct (run_returns w cargo_build).
      * apply (K _ [EvRun cargo_build]); [reflexivity | reflexivity |].
        apply No. intros e [<-|[]]; discriminate.
      * apply (K _ [EvRun cargo_build]);
          [cbn; now rewrite app_nil_r | reflexivity |].
        apply No. intros e [<-|[]]; discriminate.
    + destruct (popen_pid w cargo_watch).
      * apply (K _ [EvPopen cargo_watch (Some z)]);
          [reflexivity | reflexivity |].
        apply No. intros e [<-|[]]; discriminate.
      * apply (K _ [EvPopen cargo_watch None]);
          [cbn; now rewrite app_nil_r | reflexivity |].
        apply No. intros e [<-|[]]; discriminate.
    + destruct (popen_pid w cargo_run).
      * (* the list is bound: nothing was polled before *)
        intros p r Hin. cbn in Hin. apply in_app_iff in Hin.
        destruct Hin as [Hin|[Hin|[]]]; [|discriminate Hin].
        rewrite Forall_forall in St. specialize (St _ Hin).
        cbn in St. lia.
      * apply (K _ [EvPopen cargo_run None]);
          [cbn; now rewrite app_nil_r | reflexivity |].
        apply No. intros e [<-|[]]; discriminate.
    + destruct (processes s) as [ps|] eqn:Ps.
      * destruct (nth_error ps i) as [p|] eqn:N.
        -- assert (Hp : In p (handles s)).
           { unfold handles. rewrite Ps. eapply nth_error_In. exact N. }
           destruct (poll_at w t p).
           ++ apply (K _ [EvPoll p (Some z)]); [reflexivity | reflexivity |].
              intros q r [[= <- _]|[]]. exact Hp.
           ++ apply (K _ [EvPoll p None]); [reflexivity | reflexivity |].
              intros q r [[= <- _]|[]]. exact Hp.
        -- apply (K _ []); [reflexivity | reflexivity |]. intros q r [].
      * apply (K _ []); [reflexivity | reflexivity |]. intros q r [].
    + destruct (processes s) as [ps|] eqn:Ps.
      * destruct (nth_error ps j) as [q|].
        -- apply (K _ [EvTerminate q]); [reflexivity | reflexivity |].
           apply No. intros e [<-|[]]; discriminate.
        -- apply (K _ [EvExit c]); [reflexivity | reflexivity |].
           apply No. intros e [<-|[]]; discriminate.
      * apply (K _ []); [reflexivity | reflexivity |]. intros q r [].
    + unfold halted in Hh. rewrite A in Hh. discriminate Hh.
Qed.

Lemma polls_handles_run w n : polls_handles (run w n).
Proof.
  induction n; [intros p r []|]. rewrite run_S.
  apply polls_handles_step; [apply wf_run | apply staged_run | exact IHn].
Qed.

Lemma polled_In tr p r : In (EvPoll p r) tr -> In p (polled tr).
Proof.
  intros H. unfold polled. apply in_flat_map.
  exists (EvPoll p r). split; [exact H | now left].
Qed.

Lemma unseen_finished_polls s : unseen s -> finished_polls (trace s) = [].
Proof.
  intros U. destruct (finished_polls (trace s)) as [|[p c] l] eqn:E;
    [reflexivity|].
  exfalso. apply (U p c). apply finished_polls_In. rewrite E. now left.
Qed.

(** ** Where the exit code comes from *)

(** The argument of the [sys.exit] that ended the supervisor is the
    handler's 0, after a SIGINT was taken, or the code that a poll of one
    of the handles of the list returned earlier. *)
Lemma sys_exit_argument_origin w n c :
  at_ (run w n) = Halted (SystemExit c) ->
  (c = 0%Z /\ In EvSigint (trace (run w n)))
  \/ (exists p t, t < n /\ In p (handles (run w n))
                  /\ poll_at w t p = Some c).
Proof.
  intros A. destruct (wf_run w n) as (_ & _ & C). rewrite A in C.
  destruct C as [S|[p Hp]].
  - left. split; [|exact S].
    destruct (sigint_inv_run w n S) as [[A' _]|[A' _]]; congruence.
  - right. destruct (poll_events_are_answers w n p _ Hp) as (t & Ht & E).
    exists p, t. repeat split; auto.
    exact (polls_handles_run w n p _ Hp).
Qed.

(** X1: whatever the world does, the exit status of a supervisor that
    ended by [sys.exit] is either 0, after a SIGINT was taken by the
    handler, or [c mod 256] for a code [c] that an earlier poll of one of
    the handles of the list returned (so a child killed by signal 9, whose
    poll returns -9, gives status 247). *)
Theorem exit_status_origin w n st :
  status (run w n) = Some st ->
  (st = 0%Z /\ In EvSigint (trace (run w n)))
  \/ (exists p t c, t < n /\ In p (handles (run w n))
                    /\ poll_at w t p = Some c
                    /\ st = (c mod 256)%Z).
Proof.
  unfold status. intros H.
  destruct (at_ (run w n)) as [| | | | | |[c|e]] eqn:A; try discriminate H.
  injection H as <-.
  destruct (sys_exit_argument_origin w n c A)
    as [[-> S]|(p & t & Ht & Hp & E)].
  - left. split; [reflexivity | exact S].
  - right. exists p, t, c. now repeat split.
Qed.

(** The run child is killed by signal 9: its poll returns -9 and the
    status of the supervisor is 247. *)
Lemma exit_status_origin_witness :
  status (run (scenario never (Some 0%Z) (finishes cargo_run 6 (-9))) 12)
  = Some 247%Z
  /\ ((247%Z = 0%Z
       /\ In EvSigint
            (trace (run (scenario never (Some 0%Z)
                           (finishes cargo_run 6 (-9))) 12)))
      \/ (exists p t c, t < 12
            /\ In p (handles
                       (run (scenario never (Some 0%Z)
                               (finishes cargo_run 6 (-9))) 12))
            /\ poll_at (scenario never (Some 0%Z)
                          (finishes cargo_run 6 (-9))) t p = Some c
            /\ 247%Z = (c mod 256)%Z)).
Proof.
  split; [reflexivity|].
  apply (exit_status_origin
           (scenario never (Some 0%Z) (finishes cargo_run 6 (-9))) 12 247).
  reflexivity.
Defined.

(** ** What the supervisor never does *)

(** X2: in every run, a [terminate()] comes after a poll that reported an
    exit code: the supervisor never asks a child to stop while all it has
    seen is running children. *)
Theorem terminate_follows_finished_poll w n q :
  In (EvTerminate q) (trace (run w n)) ->
  exists pre p c rest,
    trace (run w n) = pre ++ EvPoll p (Some c) :: rest
    /\ In (EvTerminate q) rest
    /\ terminated pre = [].
Proof.
  intros H.
  destruct (shutdown_inv_run w n) as [[_ T]|(pre & p & c & rest & E & _ & T)].
  - apply terminated_In in H. now rewrite T in H.
  - exists pre, p, c, rest. repeat split; auto.
    rewrite E in H. apply in_app_iff in H.
    destruct H as [H|[H|H]]; [|discriminate H|exact H].
    apply terminated_In in H. now rewrite T in H.
Qed.

Lemma terminate_follows_finished_poll_witness :
  exists pre p c rest,
    trace (run (scenario never (Some 0%Z) (finishes cargo_run 6 3)) 12) =
      pre ++ EvPoll p (Some c) :: rest
    /\ In (EvTerminate watch100) rest
    /\ terminated pre = [].
Proof.
  apply (terminate_follows_finished_poll
           (scenario never (Some 0%Z) (finishes cargo_run 6 3)) 12 watch100).
  vm_compute. do 8 right. now left.
Defined.

(** X3: in every run at most one poll reports an exit code, and it is the
    last poll of the run: once a child is seen finished the other one is
    not looked at any more. *)
Theorem finished_poll_is_last_poll w n p c :
  In (EvPoll p (Some c)) (trace (run w n)) ->
  exists pre rest,
    trace (run w n) = pre ++ EvPoll p (Some c) :: rest
    /\ finished_polls pre = []
    /\ polled rest = [].
Proof.
  intros H.
  destruct (observe_inv_run w n)
    as [[F _]|(pre & p' & c' & rest & E & Fp & Pr & _)].
  - apply finished_polls_In in H. now rewrite F in H.
  - rewrite E in H. apply in_app_iff in H. destruct H as [H|[H|H]].
    + apply finished_polls_In in H. now rewrite Fp in H.
    + injection H as -> ->. now exists pre, rest.
    + apply polled_In in H. now rewrite Pr in H.
Qed.

Lemma finished_poll_is_last_poll_witness :
  exists pre rest,
    trace (run (scenario never (Some 0%Z) run_then_watch) 11) =
      pre ++ EvPoll watch100 (Some 1%Z) :: rest
    /\ finished_polls pre = []
    /\ polled rest = [].
Proof.
  apply (finished_poll_is_last_poll
           (scenario never (Some 0%Z) run_then_watch) 11 watch100 1).
  vm_compute. do 6 right. now left.
Defined.

(** X4: in every run the commands given to [Popen] are a prefix of watch,
    run: each child is started at most once, the watch child first, and no
    child is ever started again. *)
Theorem children_launched_once w n :
  exists k, launches (trace (run w n)) = firstn k [cargo_watch; cargo_run].
Proof.
  pose proof (launch_inv_run w n) as H. unfold launch_inv in H.
  destruct (at_ (run w n)); try exact H;
    try (exists 0; exact H); try (exists 1; exact H); exists 2; exact H.
Qed.

(** X5: in every run the handles that were sent [terminate()] are a prefix
    of the process list, in list order, and none of them was sent it
    twice. *)
Theorem terminate_once_in_order w n :
  exists j,
    terminated (trace (run w n)) = firstn j (handles (run w n))
    /\ NoDup (terminated (trace (run w n))).
Proof.
  assert (E : exists j, terminated (trace (run w n))
                        = firstn j (handles (run w n))).
  { pose proof (terminate_inv_run w n) as H. unfold terminate_inv in H.
    destruct (at_ (run w n)); try exact H; try (exists 0; exact H).
    destruct H as [H _]. eauto. }
  destruct E as [j E]. exists j. split; [exact E|]. rewrite E.
  unfold handles. destruct (processes (run w n)) as [ps|] eqn:P.
  - destruct (processes_launched w n ps P) as (n0 & n1 & _ & _ & ->).
    destruct j as [|[|j]]; cbn [firstn]; rewrite ?firstn_nil.
    + apply NoDup_nil.
    + apply NoDup_cons; [intros [] | apply NoDup_nil].
    + apply NoDup_cons.
      * intros [H|[]]. discriminate H.
      * apply NoDup_cons; [intros [] | apply NoDup_nil].
  - rewrite firstn_nil. apply NoDup_nil.
Qed.

(** X10: in every run the polls made so far are whole sweeps of the
    process list followed by a prefix of it: the children are polled in
    turn, the watch child first, and neither is polled twice in a row. *)
Theorem polls_rotate w n :
  exists q i,
    polled (trace (run w n)) =
    concat (repeat (handles (run w n)) q) ++ firstn i (handles (run w n)).
Proof.
  pose proof (poll_inv_run w n) as H. unfold poll_inv in H.
  destruct (at_ (run w n)); try exact H;
    try (destruct H as [-> ->]; now exists 0, 0).
  destruct H as (_ & q & E). eauto.
Qed.

(** ** Failures and interrupts leave the children alone *)



(** X8: a supervisor that ends with an uncaught exception (the build or a
    child could not be started, or a SIGINT came before the handler) has
    sent [terminate()] to nobody: a child that was already started is left
    running. *)
Theorem crash_terminates_nobody w n e :
  at_ (run w n) = Halted (Uncaught e) ->
  forall m, terminated (trace (run w m)) = [].
Proof.
  intros A. apply (unobserved_terminates_nobody w n).
  - destruct (wf_run w n) as (_ & _ & C). rewrite A in C.
    now apply unseen_finished_polls.
  - now apply (at_halted _ _ A).
Qed.

Lemma crash_terminates_nobody_witness :
  launches (trace (run (missing cargo_run) 4)) = [cargo_watch; cargo_run]
  /\ forall m, terminated (trace (run (missing cargo_run) m)) = [].
Proof.
  split; [reflexivity|].
  apply (crash_terminates_nobody (missing cargo_run) 4 OSError).
  reflexivity.
Defined.



(** ** A finished child is noticed *)

(** A sweep that starts while one of the two children has finished ends in
    the exit of the supervisor. *)
Lemma sweep_notices w n h0 h1 :
  uninterrupted w ->
  at_ (run w n) = AtPoll 0 ->
  processes (run w n) = Some [h0; h1] ->
  poll_at w n h0 <> None \/ poll_at w (S n) h1 <> None ->
  exists m c, m <= n + 5 /\ at_ (run w m) = Halted (SystemExit c).
Proof.
  intros Q A P H.
  destruct (poll_at w n h0) as [c|] eqn:C0.
  - destruct (observe_then_shutdown w Q n 0 _ h0 c A P eq_refl C0) as [E _].
    exists (n + length [h0; h1] + 2), c. split; [cbn; lia | exact E].
  - destruct (observe_running w Q n 0 _ h0 A P eq_refl C0) as (A1 & P1 & _).
    destruct (poll_at w (S n) h1) as [c|] eqn:C1.
    + destruct (observe_then_shutdown w Q (S n) 1 _ h1 c A1 P1 eq_refl C1)
        as [E _].
      exists (S n + length [h0; h1] + 2), c. split; [cbn; lia | exact E].
    + destruct H as [H|H]; now destruct H.
Qed.

(** The end of the outer for: back to its head. *)
Lemma wrap_run w n h0 h1 :
  uninterrupted w ->
  at_ (run w n) = AtPoll 2 ->
  processes (run w n) = Some [h0; h1] ->
  at_ (run w (S n)) = AtPoll 0 /\ processes (run w (S n)) = Some [h0; h1].
Proof.
  intros Q A P. rewrite run_S.
  rewrite (step_poll_wrap w n _ 2 _ (Q n) A P eq_refl). now cbn.
Qed.

(** X6: with no SIGINT and a startup that went through, a child that has
    finished by time [T] (its polls answer an exit code from then on) is
    noticed within two sweeps: the supervisor has exited at the latest 6
    steps after [T], or after the start of the loop. *)
Theorem finished_child_is_noticed w n0 n1 h T :
  uninterrupted w ->
  starts w n0 n1 ->
  In h [mkPopen cargo_watch n0; mkPopen cargo_run n1] ->
  (forall t, T <= t -> poll_at w t h <> None) ->
  exists m c, m <= Nat.max T 4 + 6 /\ at_ (run w m) = Halted (SystemExit c).
Proof.
  intros Q Hs Hh F.
  set (n := Nat.max T 4).
  assert (Hn4 : 4 <= n) by (unfold n; lia).
  assert (HnT : T <= n) by (unfold n; lia).
  set (h0 := mkPopen cargo_watch n0) in *.
  set (h1 := mkPopen cargo_run n1) in *.
  destruct (in_loop_run w n0 n1 n Q Hs Hn4)
    as [P [(i & Hi & A) | [(j & c & Hj & A) | (c & A)]]];
    fold h0 in P; fold h1 in P.
  - destruct i as [|[|[|i]]]; [| | |lia].
    + (* head of a sweep *)
      destruct (sweep_notices w n h0 h1 Q A P) as (m & c & Hm & E).
      * destruct Hh as [<-|[<-|[]]]; [left|right]; apply F; lia.
      * exists m, c. split; [lia | exact E].
    + (* the second handle is next *)
      destruct (poll_at w n h1) as [c|] eqn:C1.
      * destruct (observe_then_shutdown w Q n 1 _ h1 c A P eq_refl C1)
          as [E _].
        exists (n + length [h0; h1] + 2), c. split; [cbn; lia | exact E].
      * destruct (observe_running w Q n 1 _ h1 A P eq_refl C1)
          as (A2 & P2 & _).
        destruct (wrap_run w (S n) h0 h1 Q A2 P2) as [A3 P3].
        assert (E0 : h = h0).
        { destruct Hh as [<-|[<-|[]]]; [reflexivity|].
          now destruct (F n HnT). }
        destruct (poll_at w (S (S n)) h0) as [c|] eqn:C0.
        -- destruct (observe_then_shutdown w Q (S (S n)) 0 _ h0 c
                       A3 P3 eq_refl C0) as [E _].
           exists (S (S n) + length [h0; h1] + 2), c.
           split; [cbn; lia | exact E].
        -- subst h. now destruct (F (S (S n)) ltac:(lia)).
    + (* the sweep is over *)
      destruct (wrap_run w n h0 h1 Q A P) as [A1 P1].
      destruct (sweep_notices w (S n) h0 h1 Q A1 P1) as (m & c & Hm & E).
      * destruct Hh as [<-|[<-|[]]]; [left|right]; apply F; lia.
      * exists m, c. split; [lia | exact E].
  - (* the shutdown has begun *)
    destruct (terminate_rest w Q c (skipn j [h0; h1]) (firstn j [h0; h1]) n)
      as [E _].
    + rewrite firstn_length_le by (cbn; lia). exact A.
    + now rewrite firstn_skipn.
    + exists (n + length (skipn j [h0; h1]) + 1), c. split; [|exact E].
      rewrite length_skipn. cbn [length]. lia.
  - exists n, c. split; [lia | exact A].
Qed.

Lemma finished_child_is_noticed_witness :
  exists m c,
    m <= Nat.max 6 4 + 6
    /\ at_ (run (scenario never (Some 0%Z) (finishes cargo_run 6 3)) m)
       = Halted (SystemExit c).
Proof.
  apply (finished_child_is_noticed
           (scenario never (Some 0%Z) (finishes cargo_run 6 3))
           100 200 run200 6).
  - intros t. reflexivity.
  - repeat split; try reflexivity. discriminate.
  - right. left. reflexivity.
  - intros t Ht. unfold scenario, finishes. cbn [poll_at].
    destruct (list_eq_dec string_dec (args run200) cargo_run) as [_|N];
      [|now destruct N].
    apply Nat.leb_le in Ht. rewrite Ht. discriminate.
Defined.
